(** * Posture corrector: the classifier and the capture loop of [main.cpp]

    The program opens the default webcam, and in an unbounded loop reads a
    frame, runs the OpenCV edge and line detectors, thresholds the angle of
    the first detected segment and prints one line of feedback.

    The development follows the source: 32-bit integers are [Z] with their
    wrap-around, the floating-point expression of line 35 is evaluated with
    explicit rounding operators under the standard rounding-error model
    (with IEEE 754 round-to-nearest as one instance), and [main] is a step
    function on an explicit control state with the trace of its output
    events. *)

From Stdlib Require Import ZArith List String Bool Lia.
From Stdlib Require Import Reals Lra Machin Zfloor ROrderedType.
Import ListNotations.

Local Open Scope Z_scope.

(** ** 32-bit integers and line segments *)

Module Int32.

Definition min_int : Z := - 2 ^ 31.
Definition max_int : Z := 2 ^ 31 - 1.

Definition in_range (z : Z) : Prop := min_int <= z <= max_int.

(** Two's-complement reduction of a mathematical integer to [int].  Signed
    overflow has no defined result in C++; the model takes the value the
    hardware produces.  Differences of pixel coordinates never overflow
    ([sub_pixels] below). *)
Definition wrap (z : Z) : Z := (z + 2 ^ 31) mod 2 ^ 32 - 2 ^ 31.

(** [a - b] on [int] operands. *)
Definition sub (a b : Z) : Z := wrap (a - b).

End Int32.

(** [cv::Vec4i]: the four [int] entries [x1, y1, x2, y2] of a segment,
    indexed 0 to 3. *)
Record Vec4i : Type := mkVec4i { v0 : Z; v1 : Z; v2 : Z; v3 : Z }.

(** The segment from [(x1, y1)] to [(x2, y2)]. *)
Definition segment (x1 y1 x2 y2 : Z) : Vec4i := mkVec4i x1 y1 x2 y2.

(** [lines[0][3] - lines[0][1]] and [lines[0][2] - lines[0][0]]. *)
Definition delta_y (l : Vec4i) : Z := Int32.sub (v3 l) (v1 l).
Definition delta_x (l : Vec4i) : Z := Int32.sub (v2 l) (v0 l).

Local Open Scope R_scope.

(** ** The mathematical angle *)

(** The two-argument arctangent that [std::atan2] approximates: the angle
    in [(-PI, PI]] of the vector [(x, y)], and 0 at the origin. *)
Definition atan2 (y x : R) : R :=
  if Rlt_dec 0 x then atan (y / x)
  else if Rlt_dec x 0 then
         if Rle_dec 0 y then atan (y / x) + PI else atan (y / x) - PI
       else if Rlt_dec 0 y then PI / 2
            else if Rlt_dec y 0 then - (PI / 2) else 0.

(** The exact value of [atan2(dy, dx) * 180 / PI] for a segment. *)
Definition angle_deg (l : Vec4i) : R :=
  atan2 (IZR (delta_y l)) (IZR (delta_x l)) * 180 / PI.

(** ** Floating-point evaluation

    Line 35 evaluates the angle in [double] and stores it in a [float].
    A floating-point number is represented by the real it denotes; the
    platform supplies the constant [CV_PI], the library function
    [std::atan2] and the two roundings to nearest. *)
Record fp_env : Type := mkFpEnv {
  CV_PI : R;                 (* the [double] constant of the OpenCV headers *)
  lib_atan2 : R -> R -> R;   (* [std::atan2] on [double] arguments *)
  rnd_double : R -> R;       (* rounding of an exact result to [double] *)
  rnd_float : R -> R         (* narrowing conversion to [float] *)
}.

(** [float angle = std::atan2(dy, dx) * 180 / CV_PI;] with the [int]
    operands converted to [double] (exactly) and each arithmetic operation
    rounded once. *)
Definition angle (E : fp_env) (l : Vec4i) : R :=
  let a := lib_atan2 E (IZR (delta_y l)) (IZR (delta_x l)) in
  let p := rnd_double E (a * 180) in
  let q := rnd_double E (p / CV_PI E) in
  rnd_float E q.

(** The comparison [x < y] as a boolean. *)
Definition Rlt_bool (x y : R) : bool := if Rlt_dec x y then true else false.

(** [std::abs(angle) < 10]: the literal 10 converts to [float] exactly. *)
Definition within_tilt (E : fp_env) (l : Vec4i) : bool :=
  Rlt_bool (Rabs (angle E l)) 10.

(** The classifier of lines 32 to 37.  [lines[0]] is an indexed access,
    which has no value past the end of the vector: that case is [None]. *)
Definition goodPosture (E : fp_env) (lines : list Vec4i) : option bool :=
  if negb (Nat.eqb (List.length lines) 0) then
    match nth_error lines 0 with
    | Some l0 => Some (within_tilt E l0)
    | None => None
    end
  else Some false.

(** The text printed at line 40. *)
Definition feedback (good : bool) : string :=
  if good then "Good posture!"%string else "Straighten up!"%string.

(** *** The rounding-error model

    Unit roundoff and underflow threshold of [float]; those of [double]
    are smaller.  A computed value [x'] approximates [x] when
    [|x' - x| <= u |x| + eta]. *)
Definition u : R := / 2 ^ 24.
Definition eta : R := / 2 ^ 149.
Definition approximates (x' x : R) : Prop :=
  Rabs (x' - x) <= u * Rabs x + eta.

(** No intermediate value of the angle comes near this magnitude. *)
Definition no_overflow (x : R) : Prop := Rabs x <= 2 ^ 100.

Record ieee_like (E : fp_env) : Prop := mkIeeeLike {
  CV_PI_accurate : approximates (CV_PI E) PI;
  lib_atan2_accurate :
    forall y x : Z, approximates (lib_atan2 E (IZR y) (IZR x))
                                 (atan2 (IZR y) (IZR x));
  rnd_double_accurate :
    forall x, no_overflow x -> approximates (rnd_double E x) x;
  rnd_float_accurate :
    forall x, no_overflow x -> approximates (rnd_float E x) x
}.

(** Exact arithmetic: every operation returns the mathematical result. *)
Definition exact_env : fp_env :=
  mkFpEnv PI atan2 (fun x => x) (fun x => x).

(** Distance allowed between the computed and the exact angle, in degrees. *)
Definition tol : R := / 1000.

(** ** The program *)

Inductive event : Type :=
| Cout (line : string)      (* [std::cout << line << std::endl] *)
| Cerr (line : string)      (* [std::cerr << line << std::endl] *)
| SleepMs (ms : Z)          (* [std::this_thread::sleep_for] *)
| CapRelease.               (* [cap.release()] *)

Inductive control : Type :=
| Entry                     (* before [cap.isOpened()] is tested *)
| Loop (reads : nat)        (* at the head of [while (true)], after [reads] frames *)
| Returned (code : Z)       (* [main] has returned [code] *)
| OutOfBounds.              (* an access past the end of [lines] *)

Record state : Type := mkState { ctl : control; trace : list event }.

Definition initial : state := mkState Entry [].

Definition banner : string :=
  "Posture Corrector running. Press 'q' to quit."%string.
Definition open_error : string := "Error: Could not open webcam."%string.
Definition frame_error : string := "Error: Empty frame."%string.

Section Main.

Variable E : fp_env.

(** OpenCV: the frame type, [cv::Mat::empty], and the detector chain
    [cvtColor], [Canny], [HoughLinesP] with the parameters of the source. *)
Variable Mat : Type.
Variable Mat_empty : Mat -> bool.
Variable detect_lines : Mat -> list Vec4i.

(** The capture device: whether it opened, and the frame delivered by the
    [i]-th execution of [cap >> frame]. *)
Record camera : Type := mkCamera { isOpened : bool; read : nat -> Mat }.

Variable cap : camera.

(** One pass through the loop body, lines 16 to 46; a [break] runs on to
    lines 49 and 50. *)
Definition iteration (i : nat) : list event * control :=
  let frame := read cap i in
  if Mat_empty frame then ([Cerr frame_error; CapRelease], Returned 0%Z)
  else
    match goodPosture E (detect_lines frame) with
    | Some good => ([Cout (feedback good); SleepMs 500], Loop (S i))
    | None => ([], OutOfBounds)
    end.

(** One step of [main]: the test of line 8, or one pass through the loop. *)
Definition step (s : state) : state :=
  match ctl s with
  | Entry =>
      if isOpened cap
      then mkState (Loop 0) (trace s ++ [Cout banner])
      else mkState (Returned (-1)%Z) (trace s ++ [Cerr open_error])
  | Loop i =>
      let (es, c) := iteration i in mkState c (trace s ++ es)
  | Returned _ | OutOfBounds => s
  end.

(** [main], executed for [n] steps from its entry. *)
Fixpoint main (n : nat) : state :=
  match n with
  | O => initial
  | S k => step (main k)
  end.

(** What holds of the control state after [n] steps. *)
Definition reachable_ok (n : nat) (s : state) : Prop :=
  match ctl s with
  | Entry => n = O
  | Loop i =>
      n = S i /\ isOpened cap = true /\
      forall j, (j < i)%nat -> Mat_empty (read cap j) = false
  | Returned c =>
      (c = (-1)%Z /\ isOpened cap = false) \/
      (c = 0%Z /\ isOpened cap = true /\
       exists k, (S k < n)%nat /\ Mat_empty (read cap k) = true /\
                 forall j, (j < k)%nat -> Mat_empty (read cap j) = false)
  | OutOfBounds => False
  end.

End Main.

Arguments isOpened {Mat}.
Arguments read {Mat}.
Arguments mkCamera {Mat}.

(** What the program wrote to each stream. *)
Fixpoint stdout_of (t : list event) : list string :=
  match t with
  | [] => []
  | Cout s :: t' => s :: stdout_of t'
  | _ :: t' => stdout_of t'
  end.

Fixpoint stderr_of (t : list event) : list string :=
  match t with
  | [] => []
  | Cerr s :: t' => s :: stderr_of t'
  | _ :: t' => stderr_of t'
  end.

(** A frame source for examples: a frame is either empty or carries the
    segments the detector finds in it. *)
Module Mock.

Definition Mat : Type := option (list Vec4i).

Definition Mat_empty (m : Mat) : bool :=
  match m with None => true | Some _ => false end.

Definition detect_lines (m : Mat) : list Vec4i :=
  match m with None => [] | Some ls => ls end.

(** A camera that opens and delivers the listed frames, then fails. *)
Definition camera_of (frames : list Mat) : camera Mat :=
  mkCamera true (fun i => nth i frames None).

(** A camera that does not open. *)
Definition broken_camera : camera Mat := mkCamera false (fun _ => None).

(** A camera that delivers the same frame for ever. *)
Definition steady_camera (m : Mat) : camera Mat := mkCamera true (fun _ => m).

End Mock.

(** ** The angle of a segment, from its endpoints *)

(** The angle from horizontal, in degrees, of the vector from the first
    endpoint [(x1, y1)] to the second [(x2, y2)]. *)
Definition directed_angle (l : Vec4i) : R :=
  atan2 (IZR (v3 l - v1 l)) (IZR (v2 l - v0 l)) * 180 / PI.

(** ** IEEE 754 rounding to nearest *)

(** The nearest integer, ties to even. *)
Definition round_half_even (y : R) : Z :=
  let f := Zfloor y in
  match Rcompare (y - IZR f) (/ 2) with
  | Lt => f
  | Gt => (f + 1)%Z
  | Eq => if Z.even f then f else (f + 1)%Z
  end.

(** The exponent [e] with [2^e <= |x| < 2^(e+1)], for [x] other than 0. *)
Definition binade (x : R) : Z := Zfloor (ln (Rabs x) / ln 2).

(** Rounding to the nearest number of the binary format with [prec] bits
    of precision and least normal exponent [emin], ties to even; below
    [2^emin] the spacing is that of the subnormal numbers.  Overflow is not
    represented: no value of the program comes near it. *)
Definition round_binary (prec emin : Z) (x : R) : R :=
  let e := (Z.max (binade x) emin - (prec - 1))%Z in
  IZR (round_half_even (x * powerRZ 2 (- e))) * powerRZ 2 e.

(** binary64 and binary32. *)
Definition round_double : R -> R := round_binary 53 (-1022).
Definition round_float : R -> R := round_binary 24 (-126).

(** A platform with IEEE 754 arithmetic: [CV_PI] is the double nearest to
    [PI], [std::atan2] returns the double nearest to the exact value, and
    every operation is rounded to nearest. *)
Definition ieee_env : fp_env :=
  mkFpEnv (round_double PI) (fun y x => round_double (atan2 y x))
          round_double round_float.

(** ** Notions for whole runs and for families of segments *)

Section Runs.

Variable E : fp_env.
Variable Mat : Type.
Variable detect_lines : Mat -> list Vec4i.
Variable cap : camera Mat.

(** The value of [goodPosture] at line 40 of the iteration that reads the
    [i]-th frame. *)
Definition verdict (i : nat) : bool :=
  match goodPosture E (detect_lines (read cap i)) with
  | Some good => good
  | None => false
  end.

(** The events of the first [k] complete iterations: for each frame the
    feedback line, then the pause of line 46. *)
Definition reports (k : nat) : list event :=
  flat_map (fun i => [Cout (feedback (verdict i)); SleepMs 500]) (seq 0 k).

End Runs.

(** How many times [cap.release()] ran. *)
Fixpoint releases (t : list event) : nat :=
  match t with
  | [] => O
  | CapRelease :: t' => S (releases t')
  | _ :: t' => releases t'
  end.

(** The time spent in [sleep_for], in milliseconds. *)
Fixpoint total_sleep (t : list event) : Z :=
  match t with
  | [] => 0%Z
  | SleepMs ms :: t' => (ms + total_sleep t')%Z
  | _ :: t' => total_sleep t'
  end.

(** The same segment with its endpoints listed in the other order. *)
Definition reverse_segment (l : Vec4i) : Vec4i :=
  mkVec4i (v2 l) (v3 l) (v0 l) (v1 l).

(** Every coordinate is a non-negative [int], as pixel coordinates are. *)
Definition pixel_segment (l : Vec4i) : Prop :=
  (0 <= v0 l <= Int32.max_int)%Z /\ (0 <= v1 l <= Int32.max_int)%Z /\
  (0 <= v2 l <= Int32.max_int)%Z /\ (0 <= v3 l <= Int32.max_int)%Z.

(** * Properties *)

(** ** Integer differences *)

Lemma wrap_in_range (z : Z) : Int32.in_range (Int32.wrap z).
Proof.
  unfold Int32.in_range, Int32.wrap, Int32.min_int, Int32.max_int.
  pose proof (Z.mod_pos_bound (z + 2 ^ 31) (2 ^ 32) ltac:(lia)). lia.
Qed.

Lemma wrap_small (z : Z) : Int32.in_range z -> Int32.wrap z = z.
Proof.
  unfold Int32.in_range, Int32.wrap, Int32.min_int, Int32.max_int. intros H.
  rewrite Z.mod_small; lia.
Qed.

(** Pixel coordinates are non-negative, so their difference never wraps. *)
Lemma sub_pixels (a b : Z) :
  (0 <= a <= Int32.max_int)%Z -> (0 <= b <= Int32.max_int)%Z ->
  Int32.sub a b = (a - b)%Z.
Proof.
  unfold Int32.sub, Int32.max_int. intros Ha Hb. apply wrap_small.
  unfold Int32.in_range, Int32.min_int, Int32.max_int. lia.
Qed.

Lemma delta_pixels (l : Vec4i) :
  (0 <= v0 l <= Int32.max_int)%Z -> (0 <= v1 l <= Int32.max_int)%Z ->
  (0 <= v2 l <= Int32.max_int)%Z -> (0 <= v3 l <= Int32.max_int)%Z ->
  delta_y l = (v3 l - v1 l)%Z /\ delta_x l = (v2 l - v0 l)%Z.
Proof.
  intros H0 H1 H2 H3. unfold delta_y, delta_x.
  split; apply sub_pixels; assumption.
Qed.

(** ** Real analysis: bounds on [PI], [atan] and [atan2] *)

Lemma Rabs_bound_inv (x e : R) : Rabs x <= e -> - e <= x <= e.
Proof. unfold Rabs. destruct (Rcase_abs x); lra. Qed.

(** Two consecutive partial sums of the arctangent series enclose [atan]. *)
Lemma atan_series_bounds (x : R) :
  0 < x < 1 -> x - x ^ 3 / 3 <= atan x <= x - x ^ 3 / 3 + x ^ 5 / 5.
Proof.
  intros Hx.
  assert (H01 : 0 <= x <= 1) by lra.
  pose proof (Ratan_seq_decreasing x H01) as Hdec.
  pose proof (Ratan_seq_converging x H01) as Hcv.
  rewrite atan_eq_ps_atan by assumption.
  unfold ps_atan.
  destruct (in_int x) as [Hin | Hout]; [| exfalso; apply Hout; lra].
  destruct (ps_atan_exists_1 x Hin) as [v Hv].
  pose proof (alternated_series_ineq (Ratan_seq x) v 0 Hdec Hcv Hv)
    as [Hlo _].
  pose proof (alternated_series_ineq (Ratan_seq x) v 1 Hdec Hcv Hv)
    as [_ Hhi].
  simpl in Hlo, Hhi. unfold tg_alt, Ratan_seq in Hlo, Hhi.
  simpl in Hlo, Hhi.
  split; lra.
Qed.

(** Machin's formula with the bases 3 and 7, cut after two and three terms. *)
Lemma PI_bounds : 3135 / 1000 < PI < 31421 / 10000.
Proof.
  pose proof (PI_2_3_7_ineq 0) as [Hlo _].
  pose proof (PI_2_3_7_ineq 1) as [_ Hhi].
  simpl in Hlo, Hhi.
  unfold tg_alt, PI_2_3_7_tg, Ratan_seq in Hlo, Hhi. simpl in Hlo, Hhi.
  split; lra.
Qed.

Lemma atan2_range (y x : R) : - PI <= atan2 y x <= PI.
Proof.
  pose proof PI_bounds as HPI.
  pose proof (atan_bound (y / x)) as [Hlo Hhi].
  unfold atan2.
  destruct (Rlt_dec 0 x) as [Hx | Hx]; [lra |].
  destruct (Rlt_dec x 0) as [Hx' | Hx'].
  - assert (Hinv : / x < 0) by (apply Rinv_lt_0_compat; exact Hx').
    destruct (Rle_dec 0 y) as [Hy | Hy].
    + assert (Hq : y / x <= 0) by (unfold Rdiv; nra).
      assert (atan (y / x) <= 0).
      { destruct Hq as [Hq | Hq].
        - left. rewrite <- atan_0. apply atan_increasing. exact Hq.
        - rewrite Hq, atan_0. lra. }
      lra.
    + assert (Hq : 0 < y / x) by (unfold Rdiv; nra).
      assert (0 < atan (y / x)).
      { rewrite <- atan_0. apply atan_increasing. exact Hq. }
      lra.
  - destruct (Rlt_dec 0 y); [lra |].
    destruct (Rlt_dec y 0); lra.
Qed.

Lemma atan2_pos_x (y x : R) : 0 < x -> atan2 y x = atan (y / x).
Proof. intros Hx. unfold atan2. destruct (Rlt_dec 0 x); [reflexivity | lra]. Qed.

Lemma atan2_neg_x_nonneg_y (y x : R) :
  x < 0 -> 0 <= y -> atan2 y x = atan (y / x) + PI.
Proof.
  intros Hx Hy. unfold atan2.
  destruct (Rlt_dec 0 x); [lra |].
  destruct (Rlt_dec x 0); [| lra].
  destruct (Rle_dec 0 y); [reflexivity | lra].
Qed.

(** ** Accuracy of the computed angle *)

Lemma u_value : u = / 16777216.
Proof. unfold u. f_equal. lra. Qed.

Lemma eta_small : 0 < eta <= / 2 ^ 60.
Proof.
  unfold eta. split.
  - apply Rinv_0_lt_compat. apply pow_lt. lra.
  - apply Rinv_le_contravar; [apply pow_lt; lra |].
    apply Rle_pow; [lra | lia].
Qed.

Lemma approximates_bound (x' x B : R) :
  approximates x' x -> Rabs x <= B ->
  - (u * B + eta) <= x' - x <= u * B + eta.
Proof.
  unfold approximates. intros H HB. apply Rabs_bound_inv.
  apply Rle_trans with (1 := H).
  apply Rplus_le_compat_r. apply Rmult_le_compat_l; [| exact HB].
  rewrite u_value. lra.
Qed.

Lemma no_overflow_bound (x B : R) :
  - B <= x <= B -> B <= 1000 -> no_overflow x.
Proof.
  intros Hx HB. unfold no_overflow.
  apply Rle_trans with B; [apply Rabs_le; exact Hx |].
  apply Rle_trans with (1 := HB).
  apply Rle_trans with (2 ^ 10); [lra |].
  apply Rle_pow; [lra | lia].
Qed.

(** Dividing an approximation of [180 A] by an approximation of [PI]. *)
Lemma quotient_error (p C A : R) :
  - PI <= A <= PI ->
  - (3 / 10000) <= p - A * 180 <= 3 / 10000 ->
  - (1 / 1000000) <= C - PI <= 1 / 1000000 ->
  - (2 / 10000) <= p / C - A * 180 / PI <= 2 / 10000.
Proof.
  intros HA Hp HC.
  pose proof PI_bounds as HPI.
  assert (HC3 : 3 < C) by lra.
  set (r := A / PI).
  assert (Hr : A = r * PI) by (unfold r; field; lra).
  assert (Hr1 : -1 <= r <= 1) by (split; nra).
  set (D := p / C - A * 180 / PI).
  assert (HD : D * C = (p - A * 180) + 180 * (r * (PI - C))).
  { unfold D, r. field. split; lra. }
  assert (Hprod : - (1 / 1000000) <= r * (PI - C) <= 1 / 1000000)
    by (split; nra).
  split; nra.
Qed.

(** The value stored in [angle] is within [tol] of the exact angle of the
    segment, on every platform that satisfies the rounding-error model. *)
Lemma angle_accurate (E : fp_env) (l : Vec4i) :
  ieee_like E -> Rabs (angle E l - angle_deg l) <= tol.
Proof.
  intros [HC Hat Hd Hf].
  pose proof PI_bounds as HPI.
  pose proof eta_small as Heta.
  assert (Heta' : / 2 ^ 60 <= / 1000000000).
  { apply Rinv_le_contravar; [lra |].
    apply Rle_trans with (2 ^ 30); [lra | apply Rle_pow; [lra | lia]]. }
  unfold angle, angle_deg, tol.
  set (A := atan2 (IZR (delta_y l)) (IZR (delta_x l))).
  pose proof (atan2_range (IZR (delta_y l)) (IZR (delta_x l))) as HA.
  fold A in HA.
  set (a := lib_atan2 E (IZR (delta_y l)) (IZR (delta_x l))).
  assert (Ha : - (1 / 1000000) <= a - A <= 1 / 1000000).
  { pose proof (approximates_bound a A 4 (Hat _ _)
                  ltac:(apply Rabs_le; lra)) as H.
    rewrite u_value in H. lra. }
  set (p := rnd_double E (a * 180)).
  assert (Hp : - (3 / 10000) <= p - A * 180 <= 3 / 10000).
  { assert (Hb : - 720 <= a * 180 <= 720) by lra.
    pose proof (approximates_bound p (a * 180) 720
                  (Hd _ (no_overflow_bound _ 720 Hb ltac:(lra)))
                  ltac:(apply Rabs_le; exact Hb)) as H.
    rewrite u_value in H. lra. }
  assert (HCb : - (1 / 1000000) <= CV_PI E - PI <= 1 / 1000000).
  { pose proof (approximates_bound (CV_PI E) PI 4 HC
                  ltac:(apply Rabs_le; lra)) as H.
    rewrite u_value in H. lra. }
  pose proof (quotient_error p (CV_PI E) A HA Hp HCb) as Hq0.
  assert (HQ : - 180 <= A * 180 / PI <= 180).
  { replace (A * 180 / PI) with (A / PI * 180) by (field; lra).
    assert (-1 <= A / PI <= 1).
    { assert (Hr : A = A / PI * PI) by (field; lra). split; nra. }
    lra. }
  set (q0 := p / CV_PI E) in *.
  set (q := rnd_double E q0).
  assert (Hq : - (3 / 10000) <= q - A * 180 / PI <= 3 / 10000).
  { assert (Hb : - 181 <= q0 <= 181) by lra.
    pose proof (approximates_bound q q0 181
                  (Hd _ (no_overflow_bound _ 181 Hb ltac:(lra)))
                  ltac:(apply Rabs_le; exact Hb)) as H.
    rewrite u_value in H. lra. }
  assert (Hb : - 181 <= q <= 181) by lra.
  pose proof (approximates_bound (rnd_float E q) q 181
                (Hf _ (no_overflow_bound _ 181 Hb ltac:(lra)))
                ltac:(apply Rabs_le; exact Hb)) as H.
  rewrite u_value in H.
  apply Rabs_le. lra.
Qed.

Lemma exact_env_ieee_like : ieee_like exact_env.
Proof.
  assert (H : forall x, approximates x x).
  { intros x. unfold approximates.
    replace (x - x) with 0 by ring. rewrite Rabs_R0.
    pose proof (Rabs_pos x). pose proof eta_small. rewrite u_value. nra. }
  constructor; simpl; intros; apply H.
Qed.

(** ** The classifier *)

Lemma Rlt_bool_true (x y : R) : x < y -> Rlt_bool x y = true.
Proof. intros H. unfold Rlt_bool. destruct (Rlt_dec x y); [reflexivity | lra]. Qed.

Lemma Rlt_bool_false (x y : R) : y <= x -> Rlt_bool x y = false.
Proof. intros H. unfold Rlt_bool. destruct (Rlt_dec x y); [lra | reflexivity]. Qed.

Lemma goodPosture_nil (E : fp_env) : goodPosture E [] = Some false.
Proof. reflexivity. Qed.

Lemma goodPosture_cons (E : fp_env) (l : Vec4i) (rest : list Vec4i) :
  goodPosture E (l :: rest) = Some (within_tilt E l).
Proof. reflexivity. Qed.

Lemma goodPosture_total (E : fp_env) (lines : list Vec4i) :
  exists good, goodPosture E lines = Some good.
Proof.
  destruct lines as [| l rest].
  - exists false. apply goodPosture_nil.
  - exists (within_tilt E l). apply goodPosture_cons.
Qed.

(** An exact angle clear of the threshold by [tol] decides the computed
    classification. *)
Lemma within_tilt_below (E : fp_env) (l : Vec4i) :
  ieee_like E -> Rabs (angle_deg l) < 10 - tol -> within_tilt E l = true.
Proof.
  intros HE Hd. apply Rlt_bool_true.
  pose proof (Rabs_bound_inv _ _ (angle_accurate E l HE)) as Hacc.
  revert Hd. unfold tol in *. unfold Rabs.
  destruct (Rcase_abs (angle_deg l)); destruct (Rcase_abs (angle E l)); lra.
Qed.

Lemma within_tilt_above (E : fp_env) (l : Vec4i) :
  ieee_like E -> 10 + tol <= Rabs (angle_deg l) -> within_tilt E l = false.
Proof.
  intros HE Hd. apply Rlt_bool_false.
  pose proof (Rabs_bound_inv _ _ (angle_accurate E l HE)) as Hacc.
  revert Hd. unfold tol in *. unfold Rabs.
  destruct (Rcase_abs (angle_deg l)); destruct (Rcase_abs (angle E l)); lra.
Qed.

(** *** Exact angles of the sample segments *)

Lemma angle_deg_flat : angle_deg (segment 0 0 100 0) = 0.
Proof.
  unfold angle_deg.
  replace (delta_y (segment 0 0 100 0)) with 0%Z by reflexivity.
  replace (delta_x (segment 0 0 100 0)) with 100%Z by reflexivity.
  rewrite atan2_pos_x by lra.
  replace (0 / 100) with 0 by field. rewrite atan_0.
  unfold Rdiv. ring.
Qed.

Lemma angle_deg_diagonal : angle_deg (segment 0 0 100 100) = 45.
Proof.
  pose proof PI_bounds.
  unfold angle_deg.
  replace (delta_y (segment 0 0 100 100)) with 100%Z by reflexivity.
  replace (delta_x (segment 0 0 100 100)) with 100%Z by reflexivity.
  rewrite atan2_pos_x by lra.
  replace (100 / 100) with 1 by field. rewrite atan_1.
  field. lra.
Qed.

Lemma angle_deg_17 : 96 / 10 < angle_deg (segment 0 0 100 17) < 97 / 10.
Proof.
  pose proof PI_bounds as HPI.
  unfold angle_deg.
  replace (delta_y (segment 0 0 100 17)) with 17%Z by reflexivity.
  replace (delta_x (segment 0 0 100 17)) with 100%Z by reflexivity.
  rewrite atan2_pos_x by lra.
  pose proof (atan_series_bounds (17 / 100) ltac:(lra)) as [Hlo Hhi].
  set (t := atan (17 / 100)) in *.
  assert (Hinv : 0 < / PI) by (apply Rinv_0_lt_compat; lra).
  assert (Hid : PI * / PI = 1) by (apply Rinv_r; lra).
  unfold Rdiv. split; nra.
Qed.

Lemma angle_deg_18 : 102 / 10 < angle_deg (segment 0 0 100 18) < 103 / 10.
Proof.
  pose proof PI_bounds as HPI.
  unfold angle_deg.
  replace (delta_y (segment 0 0 100 18)) with 18%Z by reflexivity.
  replace (delta_x (segment 0 0 100 18)) with 100%Z by reflexivity.
  rewrite atan2_pos_x by lra.
  pose proof (atan_series_bounds (18 / 100) ltac:(lra)) as [Hlo Hhi].
  set (t := atan (18 / 100)) in *.
  assert (Hinv : 0 < / PI) by (apply Rinv_0_lt_compat; lra).
  assert (Hid : PI * / PI = 1) by (apply Rinv_r; lra).
  unfold Rdiv. split; nra.
Qed.

Lemma angle_deg_reversed :
  1794 / 10 < angle_deg (segment 100 0 0 1) < 1795 / 10.
Proof.
  pose proof PI_bounds as HPI.
  unfold angle_deg.
  replace (delta_y (segment 100 0 0 1)) with 1%Z by reflexivity.
  replace (delta_x (segment 100 0 0 1)) with (-100)%Z by reflexivity.
  rewrite atan2_neg_x_nonneg_y by lra.
  replace (1 / -100) with (- (1 / 100)) by field. rewrite atan_opp.
  pose proof (atan_series_bounds (1 / 100) ltac:(lra)) as [Hlo Hhi].
  set (t := atan (1 / 100)) in *.
  assert (Hinv : 0 < / PI) by (apply Rinv_0_lt_compat; lra).
  assert (Hid : PI * / PI = 1) by (apply Rinv_r; lra).
  unfold Rdiv. split; nra.
Qed.

Lemma angle_deg_forward : -1 < angle_deg (segment 0 1 100 0) < 0.
Proof.
  pose proof PI_bounds as HPI.
  unfold angle_deg.
  replace (delta_y (segment 0 1 100 0)) with (-1)%Z by reflexivity.
  replace (delta_x (segment 0 1 100 0)) with 100%Z by reflexivity.
  rewrite atan2_pos_x by lra.
  replace (-1 / 100) with (- (1 / 100)) by field. rewrite atan_opp.
  pose proof (atan_series_bounds (1 / 100) ltac:(lra)) as [Hlo Hhi].
  set (t := atan (1 / 100)) in *.
  assert (Hinv : 0 < / PI) by (apply Rinv_0_lt_compat; lra).
  assert (Hid : PI * / PI = 1) by (apply Rinv_r; lra).
  unfold Rdiv. split; nra.
Qed.

(** ** The capture loop *)

Section Loop.

Variable E : fp_env.
Variable Mat : Type.
Variable Mat_empty : Mat -> bool.
Variable detect_lines : Mat -> list Vec4i.
Variable cap : camera Mat.

Local Abbreviation body := (iteration E Mat Mat_empty detect_lines cap).
Local Abbreviation next := (step E Mat Mat_empty detect_lines cap).
Local Abbreviation after := (main E Mat Mat_empty detect_lines cap).
Local Abbreviation reachable := (reachable_ok Mat Mat_empty cap).

Lemma iteration_empty (i : nat) :
  Mat_empty (read cap i) = true ->
  body i = ([Cerr frame_error; CapRelease], Returned 0%Z).
Proof. intros H. unfold iteration. rewrite H. reflexivity. Qed.

Lemma iteration_frame (i : nat) :
  Mat_empty (read cap i) = false ->
  exists good,
    goodPosture E (detect_lines (read cap i)) = Some good /\
    body i = ([Cout (feedback good); SleepMs 500], Loop (S i)).
Proof.
  intros H. unfold iteration. rewrite H.
  destruct (goodPosture_total E (detect_lines (read cap i))) as [g Hg].
  exists g. rewrite Hg. split; reflexivity.
Qed.

Lemma step_loop_frame (s : state) (i : nat) :
  ctl s = Loop i -> Mat_empty (read cap i) = false ->
  exists good,
    goodPosture E (detect_lines (read cap i)) = Some good /\
    next s = mkState (Loop (S i))
                     (trace s ++ [Cout (feedback good); SleepMs 500]).
Proof.
  intros Hc He. destruct (iteration_frame i He) as [g [Hg Hi]].
  exists g. split; [exact Hg |].
  unfold step. rewrite Hc, Hi. reflexivity.
Qed.

Lemma step_loop_empty (s : state) (i : nat) :
  ctl s = Loop i -> Mat_empty (read cap i) = true ->
  next s = mkState (Returned 0%Z) (trace s ++ [Cerr frame_error; CapRelease]).
Proof.
  intros Hc He. unfold step. rewrite Hc, (iteration_empty i He).
  reflexivity.
Qed.

Lemma step_returned (s : state) (c : Z) : ctl s = Returned c -> next s = s.
Proof. intros H. unfold step. rewrite H. reflexivity. Qed.

Lemma main_returned (n m : nat) (c : Z) :
  ctl (after n) = Returned c -> after (n + m) = after n.
Proof.
  intros H. induction m as [| m IH].
  - rewrite Nat.add_0_r. reflexivity.
  - rewrite Nat.add_succ_r. simpl. rewrite IH. apply (step_returned _ c H).
Qed.

Lemma main_reachable_ok (n : nat) : reachable n (after n).
Proof.
  induction n as [| n IH].
  - reflexivity.
  - simpl. unfold reachable_ok in IH.
    destruct (ctl (after n)) as [| i | c |] eqn:Hc.
    + subst n. unfold step. rewrite Hc.
      destruct (isOpened cap) eqn:Ho; unfold reachable_ok; simpl.
      * repeat split; [exact Ho | intros j Hj; lia].
      * left. split; [reflexivity | exact Ho].
    + destruct IH as [Hn [Ho Hfr]].
      destruct (Mat_empty (read cap i)) eqn:He.
      * rewrite (step_loop_empty _ i Hc He). unfold reachable_ok; simpl.
        right. repeat split; [exact Ho |].
        exists i. repeat split; [lia | exact He | exact Hfr].
      * destruct (step_loop_frame _ i Hc He) as [g [_ Hs]]. rewrite Hs.
        unfold reachable_ok; simpl. repeat split; [lia | exact Ho |].
        intros j Hj. destruct (Nat.eq_dec j i) as [-> | Hne];
          [exact He | apply Hfr; lia].
    + rewrite (step_returned _ c Hc). unfold reachable_ok. rewrite Hc.
      destruct IH as [IH | [H0 [Ho [k [Hk Hrest]]]]]; [left; exact IH |].
      right. repeat split; [exact H0 | exact Ho |].
      exists k. split; [lia | exact Hrest].
    + contradiction.
Qed.

Lemma main_never_out_of_bounds (n : nat) : ctl (after n) <> OutOfBounds.
Proof.
  intros H. pose proof (main_reachable_ok n) as Hr.
  unfold reachable_ok in Hr. rewrite H in Hr. exact Hr.
Qed.

(** While frames keep coming, the loop keeps running. *)
Lemma main_loop (k : nat) :
  isOpened cap = true ->
  (forall j, (j < k)%nat -> Mat_empty (read cap j) = false) ->
  ctl (after (S k)) = Loop k.
Proof.
  intros Ho. induction k as [| k IH]; intros Hfr.
  - simpl. unfold step. simpl. rewrite Ho. reflexivity.
  - assert (Hk : ctl (after (S k)) = Loop k) by (apply IH; intros; apply Hfr; lia).
    change (after (S (S k))) with (next (after (S k))).
    destruct (step_loop_frame _ k Hk (Hfr k ltac:(lia))) as [g [_ Hs]].
    rewrite Hs. reflexivity.
Qed.

(** The first empty frame ends the loop, and [main] returns 0. *)
Lemma main_break (k : nat) :
  isOpened cap = true ->
  (forall j, (j < k)%nat -> Mat_empty (read cap j) = false) ->
  Mat_empty (read cap k) = true ->
  after (S (S k)) =
    mkState (Returned 0%Z) (trace (after (S k)) ++ [Cerr frame_error; CapRelease]).
Proof.
  intros Ho Hfr He.
  change (after (S (S k))) with (next (after (S k))).
  apply (step_loop_empty _ k); [apply main_loop; assumption | exact He].
Qed.

Lemma main_camera_closed (n : nat) :
  isOpened cap = false ->
  after (S n) = mkState (Returned (-1)%Z) [Cerr open_error].
Proof.
  intros Ho.
  assert (H1 : after 1 = mkState (Returned (-1)%Z) [Cerr open_error]).
  { simpl. unfold step. simpl. rewrite Ho. reflexivity. }
  change (S n) with (1 + n)%nat.
  rewrite (main_returned 1 n (-1)%Z); [exact H1 | rewrite H1; reflexivity].
Qed.

(** Some frame is empty exactly when there is a first empty frame. *)
Lemma first_empty_frame (k : nat) :
  Mat_empty (read cap k) = true ->
  exists k0, (k0 <= k)%nat /\ Mat_empty (read cap k0) = true /\
             forall j, (j < k0)%nat -> Mat_empty (read cap j) = false.
Proof.
  induction k as [k IH] using lt_wf_ind. intros He.
  destruct (existsb (fun j => Mat_empty (read cap j)) (seq 0 k)) eqn:Hex.
  - apply existsb_exists in Hex. destruct Hex as [j [Hin Hj]].
    apply in_seq in Hin.
    destruct (IH j ltac:(lia) Hj) as [k0 [Hle Hk0]].
    exists k0. split; [lia | exact Hk0].
  - exists k. split; [lia |]. split; [exact He |].
    intros j Hj.
    destruct (Mat_empty (read cap j)) eqn:Hmj; [| reflexivity].
    assert (Htrue : existsb (fun j => Mat_empty (read cap j)) (seq 0 k) = true).
    { apply existsb_exists. exists j. split; [apply in_seq; lia | exact Hmj]. }
    congruence.
Qed.


(** *** The output streams *)

Lemma stdout_of_app (t1 t2 : list event) :
  stdout_of (t1 ++ t2) = stdout_of t1 ++ stdout_of t2.
Proof.
  induction t1 as [| e t1 IH]; [reflexivity |].
  destruct e; simpl; rewrite IH; reflexivity.
Qed.

Lemma stderr_of_app (t1 t2 : list event) :
  stderr_of (t1 ++ t2) = stderr_of t1 ++ stderr_of t2.
Proof.
  induction t1 as [| e t1 IH]; [reflexivity |].
  destruct e; simpl; rewrite IH; reflexivity.
Qed.

Lemma feedback_not_banner (good : bool) : feedback good <> banner.
Proof. destruct good; discriminate. Qed.

Lemma banner_not_in_feedback (gs : list bool) :
  count_occ string_dec (map feedback gs) banner = O.
Proof.
  induction gs as [| g gs IH]; [reflexivity |].
  simpl. destruct (string_dec (feedback g) banner) as [Heq | _];
    [destruct (feedback_not_banner g Heq) | exact IH].
Qed.

(** Once the camera has opened, standard output holds the banner followed
    by one feedback line per classified frame. *)
Lemma main_stdout_shape (n : nat) :
  isOpened cap = true ->
  exists gs, stdout_of (trace (after (S n))) = banner :: map feedback gs.
Proof.
  intros Ho. induction n as [| n IH].
  - exists []. simpl. unfold step. simpl. rewrite Ho. reflexivity.
  - destruct IH as [gs Hgs].
    change (after (S (S n))) with (next (after (S n))).
    pose proof (main_reachable_ok (S n)) as Hr. unfold reachable_ok in Hr.
    destruct (ctl (after (S n))) as [| i | c |] eqn:Hc.
    + discriminate Hr.
    + destruct (Mat_empty (read cap i)) eqn:He.
      * rewrite (step_loop_empty _ i Hc He). cbn [trace].
        rewrite stdout_of_app, Hgs. cbn [stdout_of]. rewrite app_nil_r.
        exists gs. reflexivity.
      * destruct (step_loop_frame _ i Hc He) as [g [_ Hs]]. rewrite Hs.
        cbn [trace]. rewrite stdout_of_app, Hgs. cbn [stdout_of].
        exists (gs ++ [g]). rewrite map_app. reflexivity.
    + rewrite (step_returned _ c Hc). exists gs. exact Hgs.
    + contradiction.
Qed.

End Loop.

(** * The claims *)

(** ** Classifier *)

(** C2.  For the empty line list the classifier returns needs correction,
    and a frame in which no segment is detected prints "Straighten up!". *)
Theorem empty_list_needs_correction
  (E : fp_env) (Mat : Type) (Mat_empty : Mat -> bool)
  (detect_lines : Mat -> list Vec4i) (cap : camera Mat) (i : nat) :
  Mat_empty (read cap i) = false ->
  detect_lines (read cap i) = [] ->
  goodPosture E [] = Some false /\
  iteration E Mat Mat_empty detect_lines cap i =
    ([Cout "Straighten up!"; SleepMs 500], Loop (S i)).
Proof.
  intros Hne Hl. split; [reflexivity |].
  unfold iteration. rewrite Hne, Hl. reflexivity.
Qed.

Lemma empty_list_needs_correction_witness :
  goodPosture exact_env [] = Some false /\
  iteration exact_env Mock.Mat Mock.Mat_empty Mock.detect_lines
            (Mock.steady_camera (Some [])) 3 =
    ([Cout "Straighten up!"; SleepMs 500], Loop 4).
Proof.
  apply (empty_list_needs_correction exact_env Mock.Mat Mock.Mat_empty
           Mock.detect_lines (Mock.steady_camera (Some [])) 3).
  - reflexivity.
  - reflexivity.
Defined.

(** C3.  A single segment from (0,0) to (100,0), at 0 degrees, and one to
    (100,17), between 9.6 and 9.7 degrees, are classified good posture; one
    to (100,100), at 45 degrees, and one to (100,18), between 10.2 and 10.3
    degrees,
    are classified needs correction. *)
Theorem boundary_segments (E : fp_env) :
  ieee_like E ->
  (angle_deg (segment 0 0 100 0) = 0 /\
   goodPosture E [segment 0 0 100 0] = Some true) /\
  (96 / 10 < angle_deg (segment 0 0 100 17) < 97 / 10 /\
   goodPosture E [segment 0 0 100 17] = Some true) /\
  (angle_deg (segment 0 0 100 100) = 45 /\
   goodPosture E [segment 0 0 100 100] = Some false) /\
  (102 / 10 < angle_deg (segment 0 0 100 18) < 103 / 10 /\
   goodPosture E [segment 0 0 100 18] = Some false).
Proof.
  intros HE. rewrite !goodPosture_cons.
  pose proof angle_deg_flat as H0. pose proof angle_deg_17 as H17.
  pose proof angle_deg_diagonal as H45. pose proof angle_deg_18 as H18.
  repeat split; try assumption; try tauto; f_equal.
  - apply (within_tilt_below E _ HE). rewrite H0, Rabs_R0. unfold tol. lra.
  - apply (within_tilt_below E _ HE). rewrite Rabs_pos_eq by lra.
    unfold tol. lra.
  - apply (within_tilt_above E _ HE). rewrite H45, Rabs_pos_eq by lra.
    unfold tol. lra.
  - apply (within_tilt_above E _ HE). rewrite Rabs_pos_eq by lra.
    unfold tol. lra.
Qed.

Lemma boundary_segments_witness :
  goodPosture exact_env [segment 0 0 100 17] = Some true /\
  goodPosture exact_env [segment 0 0 100 18] = Some false.
Proof.
  pose proof (boundary_segments exact_env exact_env_ieee_like)
    as [_ [[_ H17] [_ [_ H18]]]].
  split; assumption.
Defined.

(** C4.  The result depends on the first segment only: whatever follows
    it, and whatever is appended to the list, the result is that of the
    first segment alone. *)
Theorem only_first_segment_consulted
  (E : fp_env) (l : Vec4i) (rest more : list Vec4i) :
  goodPosture E (l :: rest) = goodPosture E [l] /\
  goodPosture E ((l :: rest) ++ more) = goodPosture E (l :: rest).
Proof. split; reflexivity. Qed.

(** C5.  The classifier is a function of the line list alone.  Two
    iterations that detect the same list, in any two states of the program
    (whatever was printed before, however many frames were read, whichever
    camera), obtain the same result and append the same events; the events
    are the feedback line and the pause, nothing else. *)
Theorem classifier_is_pure
  (E : fp_env) (Mat : Type) (Mat_empty : Mat -> bool)
  (detect_lines : Mat -> list Vec4i) (cap1 cap2 : camera Mat)
  (s1 s2 : state) (i j : nat) :
  ctl s1 = Loop i -> ctl s2 = Loop j ->
  Mat_empty (read cap1 i) = false -> Mat_empty (read cap2 j) = false ->
  detect_lines (read cap1 i) = detect_lines (read cap2 j) ->
  exists good,
    goodPosture E (detect_lines (read cap1 i)) = Some good /\
    goodPosture E (detect_lines (read cap2 j)) = Some good /\
    trace (step E Mat Mat_empty detect_lines cap1 s1) =
      trace s1 ++ [Cout (feedback good); SleepMs 500] /\
    trace (step E Mat Mat_empty detect_lines cap2 s2) =
      trace s2 ++ [Cout (feedback good); SleepMs 500].
Proof.
  intros Hc1 Hc2 He1 He2 Hsame.
  destruct (step_loop_frame E Mat Mat_empty detect_lines cap1 s1 i Hc1 He1)
    as [g1 [Hg1 Hs1]].
  destruct (step_loop_frame E Mat Mat_empty detect_lines cap2 s2 j Hc2 He2)
    as [g2 [Hg2 Hs2]].
  assert (Hg : g2 = g1) by congruence. subst g2.
  exists g1. rewrite Hs1, Hs2. repeat split; assumption.
Qed.

Lemma classifier_is_pure_witness :
  exists good,
    goodPosture exact_env [] = Some good /\
    goodPosture exact_env [] = Some good /\
    trace (step exact_env Mock.Mat Mock.Mat_empty Mock.detect_lines
             (Mock.steady_camera (Some [])) (mkState (Loop 0) [Cout banner])) =
      [Cout banner] ++ [Cout (feedback good); SleepMs 500] /\
    trace (step exact_env Mock.Mat Mock.Mat_empty Mock.detect_lines
             (Mock.camera_of [None; None; Some []])
             (mkState (Loop 2) [CapRelease; SleepMs 1])) =
      [CapRelease; SleepMs 1] ++ [Cout (feedback good); SleepMs 500].
Proof.
  apply (classifier_is_pure exact_env Mock.Mat Mock.Mat_empty
           Mock.detect_lines (Mock.steady_camera (Some []))
           (Mock.camera_of [None; None; Some []])
           (mkState (Loop 0) [Cout banner])
           (mkState (Loop 2) [CapRelease; SleepMs 1]) 0 2);
    reflexivity.
Defined.

(** C9.  [lines[0]] is read only when the list is non-empty: the classifier
    always has a result, and no run of the program reaches an access past
    the end of the list. *)
Theorem first_access_guarded
  (E : fp_env) (Mat : Type) (Mat_empty : Mat -> bool)
  (detect_lines : Mat -> list Vec4i) (cap : camera Mat) :
  (forall lines, goodPosture E lines <> None) /\
  (forall i, snd (iteration E Mat Mat_empty detect_lines cap i)
             <> OutOfBounds) /\
  (forall n, ctl (main E Mat Mat_empty detect_lines cap n) <> OutOfBounds).
Proof.
  split; [| split].
  - intros lines. destruct (goodPosture_total E lines) as [g Hg].
    rewrite Hg. discriminate.
  - intros i. destruct (Mat_empty (read cap i)) eqn:He.
    + rewrite (iteration_empty E Mat Mat_empty detect_lines cap i He).
      discriminate.
    + destruct (iteration_frame E Mat Mat_empty detect_lines cap i He)
        as [g [_ Hi]].
      rewrite Hi. discriminate.
  - apply main_never_out_of_bounds.
Qed.

(** ** Process *)

(** C6.  If the camera cannot be opened, [main] reports the error and
    returns -1.  If it opened, the first empty frame is reported, ends the
    loop and [main] returns 0.  A run that has returned did so in one of
    these two ways. *)
Theorem exit_codes
  (E : fp_env) (Mat : Type) (Mat_empty : Mat -> bool)
  (detect_lines : Mat -> list Vec4i) (cap : camera Mat) :
  (isOpened cap = false ->
   forall n, main E Mat Mat_empty detect_lines cap (S n) =
             mkState (Returned (-1)%Z) [Cerr open_error]) /\
  (isOpened cap = true ->
   forall k,
     (forall j, (j < k)%nat -> Mat_empty (read cap j) = false) ->
     Mat_empty (read cap k) = true ->
     forall n, main E Mat Mat_empty detect_lines cap (S (S k) + n) =
               mkState (Returned 0%Z)
                 (trace (main E Mat Mat_empty detect_lines cap (S k))
                  ++ [Cerr frame_error; CapRelease])) /\
  (forall n c,
     ctl (main E Mat Mat_empty detect_lines cap n) = Returned c ->
     (c = (-1)%Z /\ isOpened cap = false) \/
     (c = 0%Z /\ isOpened cap = true /\
      exists k, Mat_empty (read cap k) = true)).
Proof.
  split; [| split].
  - intros Ho n. apply main_camera_closed. exact Ho.
  - intros Ho k Hfr He n.
    pose proof (main_break E Mat Mat_empty detect_lines cap k Ho Hfr He) as Hb.
    rewrite (main_returned E Mat Mat_empty detect_lines cap _ n 0%Z);
      [exact Hb | rewrite Hb; reflexivity].
  - intros n c Hc.
    pose proof (main_reachable_ok E Mat Mat_empty detect_lines cap n) as Hr.
    unfold reachable_ok in Hr. rewrite Hc in Hr.
    destruct Hr as [Hr | [H0 [Ho [k [_ [He _]]]]]]; [left; exact Hr |].
    right. repeat split; [exact H0 | exact Ho |]. exists k. exact He.
Qed.

Lemma exit_codes_witness :
  main exact_env Mock.Mat Mock.Mat_empty Mock.detect_lines
      Mock.broken_camera 1 =
    mkState (Returned (-1)%Z) [Cerr open_error] /\
  main exact_env Mock.Mat Mock.Mat_empty Mock.detect_lines
      (Mock.camera_of [Some []]) 3 =
    mkState (Returned 0%Z)
      [Cout banner; Cout "Straighten up!"; SleepMs 500;
       Cerr frame_error; CapRelease].
Proof.
  split.
  - apply (proj1 (exit_codes exact_env Mock.Mat Mock.Mat_empty
                    Mock.detect_lines Mock.broken_camera)).
    reflexivity.
  - apply (proj1 (proj2 (exit_codes exact_env Mock.Mat Mock.Mat_empty
                           Mock.detect_lines (Mock.camera_of [Some []])))
             eq_refl 1%nat).
    + intros j Hj. assert (j = 0)%nat as -> by lia. reflexivity.
    + reflexivity.
Defined.

(** C7.  Once the camera has opened, [main] returns if and only if some
    frame is empty; if no frame is ever empty the loop is still running
    after any number of iterations.  The program has no transition for a
    key press: lines 43 and 44 are comments. *)
Theorem loop_ends_only_on_empty_frame
  (E : fp_env) (Mat : Type) (Mat_empty : Mat -> bool)
  (detect_lines : Mat -> list Vec4i) (cap : camera Mat) :
  isOpened cap = true ->
  ((exists n c, ctl (main E Mat Mat_empty detect_lines cap n) = Returned c)
   <-> (exists k, Mat_empty (read cap k) = true)) /\
  ((forall k, Mat_empty (read cap k) = false) ->
   forall n, ctl (main E Mat Mat_empty detect_lines cap (S n)) = Loop n).
Proof.
  intros Ho. split; [split |].
  - intros [n [c Hc]].
    pose proof (main_reachable_ok E Mat Mat_empty detect_lines cap n) as Hr.
    unfold reachable_ok in Hr. rewrite Hc in Hr.
    destruct Hr as [[_ Hclosed] | [_ [_ [k [_ [He _]]]]]]; [congruence |].
    exists k. exact He.
  - intros [k He].
    destruct (first_empty_frame Mat Mat_empty cap k He)
      as [k0 [_ [He0 Hfr]]].
    exists (S (S k0)), 0%Z.
    rewrite (main_break E Mat Mat_empty detect_lines cap k0 Ho Hfr He0).
    reflexivity.
  - intros Hfr n. apply main_loop; [exact Ho | intros j _; apply Hfr].
Qed.

Lemma loop_ends_only_on_empty_frame_witness :
  ctl (main exact_env Mock.Mat Mock.Mat_empty Mock.detect_lines
         (Mock.steady_camera (Some [])) 6) = Loop 5.
Proof.
  apply (proj2 (loop_ends_only_on_empty_frame exact_env Mock.Mat
                  Mock.Mat_empty Mock.detect_lines
                  (Mock.steady_camera (Some [])) eq_refl)).
  intros k. reflexivity.
Defined.

(** C10.  The banner is written to standard output exactly once when the
    camera opens, as the first line, and never when it does not: in that
    case standard output stays empty and the only output is the error line
    on the error stream. *)
Theorem banner_once_iff_opened
  (E : fp_env) (Mat : Type) (Mat_empty : Mat -> bool)
  (detect_lines : Mat -> list Vec4i) (cap : camera Mat) (n : nat) :
  let out := stdout_of (trace (main E Mat Mat_empty detect_lines cap (S n))) in
  count_occ string_dec out banner = (if isOpened cap then 1 else 0)%nat /\
  (isOpened cap = true -> exists rest, out = banner :: rest) /\
  (isOpened cap = false ->
   out = [] /\
   trace (main E Mat Mat_empty detect_lines cap (S n)) = [Cerr open_error]).
Proof.
  intros out. unfold out. clear out.
  destruct (isOpened cap) eqn:Ho.
  - destruct (main_stdout_shape E Mat Mat_empty detect_lines cap n Ho)
      as [gs Hgs].
    rewrite Hgs. split; [| split].
    + simpl. destruct (string_dec banner banner) as [_ | Hne];
        [| contradiction].
      rewrite banner_not_in_feedback. reflexivity.
    + intros _. exists (map feedback gs). reflexivity.
    + discriminate.
  - rewrite (main_camera_closed E Mat Mat_empty detect_lines cap n Ho).
    split; [reflexivity |]. split; [discriminate |].
    intros _. split; reflexivity.
Qed.

Lemma banner_once_iff_opened_witness :
  stdout_of (trace (main exact_env Mock.Mat Mock.Mat_empty Mock.detect_lines
                      Mock.broken_camera 4)) = [] /\
  trace (main exact_env Mock.Mat Mock.Mat_empty Mock.detect_lines
           Mock.broken_camera 4) = [Cerr open_error].
Proof.
  apply (proj2 (proj2 (banner_once_iff_opened exact_env Mock.Mat
                         Mock.Mat_empty Mock.detect_lines
                         Mock.broken_camera 3))).
  reflexivity.
Defined.

(** * Further properties *)

(** ** Which segments are classified good posture *)

Lemma PI_lower : 31415 / 10000 < PI.
Proof.
  pose proof (PI_2_3_7_ineq 1) as [Hlo _].
  simpl in Hlo.
  unfold tg_alt, PI_2_3_7_tg, Ratan_seq in Hlo. simpl in Hlo.
  lra.
Qed.

Lemma atan_le (x y : R) : x <= y -> atan x <= atan y.
Proof.
  intros [H | H]; [left; apply atan_increasing; exact H | subst; lra].
Qed.

Lemma Rabs_atan (t : R) : Rabs (atan t) = atan (Rabs t).
Proof.
  destruct (Rle_lt_dec 0 t) as [Ht | Ht].
  - pose proof (atan_le 0 t Ht) as H. rewrite atan_0 in H.
    rewrite !Rabs_pos_eq by assumption. reflexivity.
  - pose proof (atan_increasing t 0 Ht) as H. rewrite atan_0 in H.
    rewrite !Rabs_left by assumption. rewrite atan_opp. reflexivity.
Qed.

Lemma slope_bound (dy dx : Z) (a b : Z) :
  (0 < dx)%Z -> (0 < b)%Z -> (b * Z.abs dy <= a * dx)%Z ->
  Rabs (IZR dy / IZR dx) <= IZR a / IZR b.
Proof.
  intros Hx Hb H.
  apply IZR_lt in Hx. apply IZR_lt in Hb. apply IZR_le in H.
  rewrite !mult_IZR, abs_IZR in H.
  unfold Rdiv. rewrite Rabs_mult, (Rabs_pos_eq (/ IZR dx)).
  2:{ left. apply Rinv_0_lt_compat. exact Hx. }
  set (q := Rabs (IZR dy) * / IZR dx).
  assert (Hq : q * IZR dx = Rabs (IZR dy)) by (unfold q; field; lra).
  assert (Hi : 0 < / IZR b) by (apply Rinv_0_lt_compat; exact Hb).
  apply (Rmult_le_reg_r (IZR dx * IZR b)); [nra |].
  replace (IZR a * / IZR b * (IZR dx * IZR b)) with (IZR a * IZR dx)
    by (field; lra).
  nra.
Qed.

Lemma slope_bound_ge (dy dx : Z) (a b : Z) :
  (0 < dx)%Z -> (0 < b)%Z -> (a * dx <= b * Z.abs dy)%Z ->
  IZR a / IZR b <= Rabs (IZR dy / IZR dx).
Proof.
  intros Hx Hb H.
  apply IZR_lt in Hx. apply IZR_lt in Hb. apply IZR_le in H.
  rewrite !mult_IZR, abs_IZR in H.
  unfold Rdiv. rewrite Rabs_mult, (Rabs_pos_eq (/ IZR dx)).
  2:{ left. apply Rinv_0_lt_compat. exact Hx. }
  set (q := Rabs (IZR dy) * / IZR dx).
  assert (Hq : q * IZR dx = Rabs (IZR dy)) by (unfold q; field; lra).
  apply (Rmult_le_reg_r (IZR dx * IZR b)); [nra |].
  replace (IZR a * / IZR b * (IZR dx * IZR b)) with (IZR a * IZR dx)
    by (field; lra).
  nra.
Qed.

Lemma angle_deg_pos_dx (l : Vec4i) :
  (0 < delta_x l)%Z ->
  Rabs (angle_deg l) =
  atan (Rabs (IZR (delta_y l) / IZR (delta_x l))) * 180 / PI.
Proof.
  intros Hx. apply IZR_lt in Hx. pose proof PI_bounds as HPI.
  unfold angle_deg. rewrite atan2_pos_x by exact Hx.
  unfold Rdiv at 1 3. rewrite !Rabs_mult, Rabs_atan.
  rewrite (Rabs_pos_eq 180) by lra.
  rewrite (Rabs_pos_eq (/ PI)); [reflexivity |].
  left. apply Rinv_0_lt_compat. lra.
Qed.

Lemma shallow_exact (l : Vec4i) :
  (0 < delta_x l)%Z ->
  (1000 * Z.abs (delta_y l) <= 176 * delta_x l)%Z ->
  Rabs (angle_deg l) < 10 - tol.
Proof.
  intros Hx Hs. rewrite (angle_deg_pos_dx l Hx).
  pose proof (slope_bound _ _ 176 1000 Hx ltac:(lia) Hs) as Hb.
  apply atan_le in Hb.
  pose proof (atan_series_bounds (176 / 1000) ltac:(lra)) as [_ Hhi].
  pose proof PI_lower as HPI. pose proof PI_bounds as HPI'.
  set (t := atan (Rabs (IZR (delta_y l) / IZR (delta_x l)))) in *.
  assert (Ht : t <= 17422 / 100000) by lra.
  assert (Hinv : 0 < / PI) by (apply Rinv_0_lt_compat; lra).
  assert (Hid : PI * / PI = 1) by (apply Rinv_r; lra).
  unfold tol, Rdiv. nra.
Qed.

Lemma steep_exact (l : Vec4i) :
  (0 < delta_x l)%Z ->
  (177 * delta_x l <= 1000 * Z.abs (delta_y l))%Z ->
  10 + tol <= Rabs (angle_deg l).
Proof.
  intros Hx Hs. rewrite (angle_deg_pos_dx l Hx).
  pose proof (slope_bound_ge _ _ 177 1000 Hx ltac:(lia) Hs) as Hb.
  apply atan_le in Hb.
  pose proof (atan_series_bounds (177 / 1000) ltac:(lra)) as [Hlo _].
  pose proof PI_bounds as HPI.
  set (t := atan (Rabs (IZR (delta_y l) / IZR (delta_x l)))) in *.
  assert (Ht : 17515 / 100000 <= t) by lra.
  assert (Hinv : 0 < / PI) by (apply Rinv_0_lt_compat; lra).
  assert (Hid : PI * / PI = 1) by (apply Rinv_r; lra).
  unfold tol, Rdiv. nra.
Qed.

Lemma atan2_left (y x : R) :
  x <= 0 -> x <> 0 \/ y <> 0 -> PI / 2 <= Rabs (atan2 y x).
Proof.
  intros Hx Hne. pose proof PI_bounds as HPI.
  pose proof (atan_bound (y / x)) as [Hlo Hhi].
  unfold atan2.
  destruct (Rlt_dec 0 x) as [Hx' | _]; [lra |].
  destruct (Rlt_dec x 0) as [Hneg | Hzero].
  - assert (Hinv : / x < 0) by (apply Rinv_lt_0_compat; exact Hneg).
    destruct (Rle_dec 0 y) as [Hy | Hy].
    + assert (Hq : y / x <= 0) by (unfold Rdiv; nra).
      apply atan_le in Hq. rewrite atan_0 in Hq.
      rewrite Rabs_pos_eq by lra. lra.
    + assert (Hq : 0 < y / x) by (unfold Rdiv; nra).
      apply atan_increasing in Hq. rewrite atan_0 in Hq.
      rewrite Rabs_left by lra. lra.
  - assert (x = 0) by lra.
    destruct (Rlt_dec 0 y) as [Hy | Hy].
    + rewrite Rabs_pos_eq by lra. lra.
    + destruct (Rlt_dec y 0) as [Hy' | Hy'].
      * rewrite Rabs_left by lra. lra.
      * exfalso. destruct Hne as [Hne | Hne]; apply Hne; lra.
Qed.

Lemma leftward_exact (l : Vec4i) :
  (delta_x l <= 0)%Z -> delta_x l <> 0%Z \/ delta_y l <> 0%Z ->
  90 <= Rabs (angle_deg l).
Proof.
  intros Hx Hne. pose proof PI_bounds as HPI.
  assert (Hne' : IZR (delta_x l) <> 0 \/ IZR (delta_y l) <> 0).
  { destruct Hne as [H | H]; [left | right];
      intros H0; apply H; apply eq_IZR; exact H0. }
  pose proof (atan2_left (IZR (delta_y l)) (IZR (delta_x l))
                (IZR_le _ _ Hx) Hne') as HA.
  unfold angle_deg.
  set (A := atan2 (IZR (delta_y l)) (IZR (delta_x l))) in *.
  unfold Rdiv. rewrite !Rabs_mult, (Rabs_pos_eq 180) by lra.
  rewrite (Rabs_pos_eq (/ PI)) by (left; apply Rinv_0_lt_compat; lra).
  assert (Hinv : 0 < / PI) by (apply Rinv_0_lt_compat; lra).
  assert (Hid : PI * / PI = 1) by (apply Rinv_r; lra).
  nra.
Qed.

Lemma degenerate_exact (l : Vec4i) :
  delta_x l = 0%Z -> delta_y l = 0%Z -> angle_deg l = 0.
Proof.
  intros Hx Hy. unfold angle_deg, atan2. rewrite Hx, Hy.
  destruct (Rlt_dec 0 0) as [H | _]; [lra |].
  destruct (Rlt_dec 0 0) as [H | _]; [lra |].
  unfold Rdiv. ring.
Qed.

Lemma reverse_pixel_deltas (l : Vec4i) :
  pixel_segment l ->
  delta_x (reverse_segment l) = (- delta_x l)%Z /\
  delta_y (reverse_segment l) = (- delta_y l)%Z.
Proof.
  intros [H0 [H1 [H2 H3]]].
  destruct (delta_pixels l H0 H1 H2 H3) as [Hy Hx].
  destruct (delta_pixels (reverse_segment l) H2 H3 H0 H1) as [Hy' Hx'].
  rewrite Hx, Hy, Hx', Hy'. simpl. split; ring.
Qed.

Lemma within_tilt_shallow (E : fp_env) (l : Vec4i) :
  ieee_like E -> (0 < delta_x l)%Z ->
  (1000 * Z.abs (delta_y l) <= 176 * delta_x l)%Z ->
  within_tilt E l = true.
Proof.
  intros HE Hx Hs. apply (within_tilt_below E l HE).
  apply shallow_exact; assumption.
Qed.

Lemma within_tilt_steep (E : fp_env) (l : Vec4i) :
  ieee_like E -> (0 < delta_x l)%Z ->
  (177 * delta_x l <= 1000 * Z.abs (delta_y l))%Z ->
  within_tilt E l = false.
Proof.
  intros HE Hx Hs. apply (within_tilt_above E l HE).
  apply steep_exact; assumption.
Qed.

Lemma within_tilt_leftward (E : fp_env) (l : Vec4i) :
  ieee_like E -> (delta_x l <= 0)%Z ->
  delta_x l <> 0%Z \/ delta_y l <> 0%Z ->
  within_tilt E l = false.
Proof.
  intros HE Hx Hne. apply (within_tilt_above E l HE).
  pose proof (leftward_exact l Hx Hne). unfold tol. lra.
Qed.

(** A segment that points to the right with a slope of at most 0.176 in
    absolute value is classified good posture. *)
Theorem shallow_segment_good
  (E : fp_env) (l : Vec4i) (rest : list Vec4i) :
  ieee_like E ->
  (0 < delta_x l)%Z ->
  (1000 * Z.abs (delta_y l) <= 176 * delta_x l)%Z ->
  goodPosture E (l :: rest) = Some true.
Proof.
  intros HE Hx Hs. rewrite goodPosture_cons. f_equal.
  apply within_tilt_shallow; assumption.
Qed.

Lemma shallow_segment_good_witness :
  goodPosture exact_env [segment 20 300 620 200; segment 0 0 0 9]
  = Some true.
Proof.
  apply (shallow_segment_good exact_env (segment 20 300 620 200)
           [segment 0 0 0 9] exact_env_ieee_like).
  - reflexivity.
  - vm_compute. discriminate.
Defined.

(** A segment that points to the right with a slope of at least 0.177 in
    absolute value is classified needs correction. *)
Theorem steep_segment_needs_correction
  (E : fp_env) (l : Vec4i) (rest : list Vec4i) :
  ieee_like E ->
  (0 < delta_x l)%Z ->
  (177 * delta_x l <= 1000 * Z.abs (delta_y l))%Z ->
  goodPosture E (l :: rest) = Some false.
Proof.
  intros HE Hx Hs. rewrite goodPosture_cons. f_equal.
  apply within_tilt_steep; assumption.
Qed.

Lemma steep_segment_needs_correction_witness :
  goodPosture exact_env [segment 20 300 620 100] = Some false.
Proof.
  apply (steep_segment_needs_correction exact_env (segment 20 300 620 100)
           [] exact_env_ieee_like).
  - reflexivity.
  - vm_compute. discriminate.
Defined.

(** A segment of non-zero length whose second endpoint is not to the right
    of the first (vertical, or pointing left) is classified needs
    correction, however small its tilt. *)
Theorem leftward_segment_needs_correction
  (E : fp_env) (l : Vec4i) (rest : list Vec4i) :
  ieee_like E ->
  (delta_x l <= 0)%Z ->
  delta_x l <> 0%Z \/ delta_y l <> 0%Z ->
  goodPosture E (l :: rest) = Some false.
Proof.
  intros HE Hx Hne. rewrite goodPosture_cons. f_equal.
  apply within_tilt_leftward; assumption.
Qed.

Lemma leftward_segment_needs_correction_witness :
  goodPosture exact_env [segment 620 200 20 200] = Some false.
Proof.
  apply (leftward_segment_needs_correction exact_env
           (segment 620 200 20 200) [] exact_env_ieee_like).
  - vm_compute. discriminate.
  - left. vm_compute. discriminate.
Defined.

(** A segment whose two endpoints coincide is classified good posture:
    the arctangent of (0, 0) is 0. *)
Theorem degenerate_segment_good
  (E : fp_env) (l : Vec4i) (rest : list Vec4i) :
  ieee_like E ->
  v0 l = v2 l -> v1 l = v3 l ->
  goodPosture E (l :: rest) = Some true.
Proof.
  intros HE Hx Hy. rewrite goodPosture_cons. f_equal.
  apply (within_tilt_below E l HE).
  rewrite degenerate_exact.
  - rewrite Rabs_R0. unfold tol. lra.
  - unfold delta_x, Int32.sub. rewrite Hx, Z.sub_diag. reflexivity.
  - unfold delta_y, Int32.sub. rewrite Hy, Z.sub_diag. reflexivity.
Qed.

Lemma degenerate_segment_good_witness :
  goodPosture exact_env [segment 7 9 7 9] = Some true.
Proof.
  apply (degenerate_segment_good exact_env (segment 7 9 7 9) []
           exact_env_ieee_like); reflexivity.
Defined.

(** The result depends on the order of the endpoints: if a segment of
    pixel coordinates with distinct endpoints is classified good posture,
    the same segment listed from its other end is classified needs
    correction. *)
Theorem good_segment_reversed_needs_correction
  (E : fp_env) (l : Vec4i) (rest rest' : list Vec4i) :
  ieee_like E ->
  pixel_segment l ->
  v0 l <> v2 l \/ v1 l <> v3 l ->
  goodPosture E (l :: rest) = Some true ->
  goodPosture E (reverse_segment l :: rest') = Some false.
Proof.
  intros HE Hpix Hne Hgood.
  destruct (reverse_pixel_deltas l Hpix) as [Hrx Hry].
  destruct Hpix as [H0 [H1 [H2 H3]]].
  destruct (delta_pixels l H0 H1 H2 H3) as [Hy Hx].
  assert (Hnd : delta_x l <> 0%Z \/ delta_y l <> 0%Z).
  { rewrite Hx, Hy. destruct Hne as [H | H]; [left | right]; lia. }
  rewrite goodPosture_cons in *.
  destruct (Z_lt_le_dec 0 (delta_x l)) as [Hpos | Hnp].
  - f_equal. apply (within_tilt_leftward E _ HE).
    + rewrite Hrx. lia.
    + left. rewrite Hrx. lia.
  - rewrite (within_tilt_leftward E l HE Hnp Hnd) in Hgood.
    discriminate Hgood.
Qed.

Lemma good_segment_reversed_needs_correction_witness :
  goodPosture exact_env [segment 620 200 20 300] = Some false.
Proof.
  apply (good_segment_reversed_needs_correction exact_env
           (segment 20 300 620 200) [] [] exact_env_ieee_like).
  - unfold pixel_segment, Int32.max_int. simpl. lia.
  - left. simpl. lia.
  - rewrite goodPosture_cons. f_equal.
    apply (within_tilt_shallow exact_env _ exact_env_ieee_like).
    + reflexivity.
    + vm_compute. discriminate.
Defined.

(** The value stored in [angle] never leaves the range of a direction in
    degrees by more than the rounding error. *)
Theorem angle_bounded (E : fp_env) (l : Vec4i) :
  ieee_like E -> Rabs (angle E l) <= 180 + tol.
Proof.
  intros HE. pose proof PI_bounds as HPI.
  pose proof (Rabs_bound_inv _ _ (angle_accurate E l HE)) as Hacc.
  pose proof (atan2_range (IZR (delta_y l)) (IZR (delta_x l))) as HA.
  assert (HQ : - 180 <= angle_deg l <= 180).
  { unfold angle_deg.
    set (A := atan2 (IZR (delta_y l)) (IZR (delta_x l))) in *.
    assert (Hinv : 0 < / PI) by (apply Rinv_0_lt_compat; lra).
    assert (Hid : PI * / PI = 1) by (apply Rinv_r; lra).
    unfold Rdiv. split; nra. }
  apply Rabs_le. unfold tol in *. lra.
Qed.

Lemma angle_bounded_witness :
  Rabs (angle exact_env (segment 100 0 0 1)) <= 180 + tol.
Proof.
  apply (angle_bounded exact_env (segment 100 0 0 1) exact_env_ieee_like).
Defined.

(** For a segment of pixel coordinates neither subtraction of line 35
    overflows: each difference is the mathematical one and fits an [int]. *)
Theorem pixel_differences_exact (l : Vec4i) :
  pixel_segment l ->
  delta_x l = (v2 l - v0 l)%Z /\ delta_y l = (v3 l - v1 l)%Z /\
  Int32.in_range (v2 l - v0 l) /\ Int32.in_range (v3 l - v1 l).
Proof.
  intros [H0 [H1 [H2 H3]]].
  destruct (delta_pixels l H0 H1 H2 H3) as [Hy Hx].
  repeat split; try assumption;
    unfold Int32.min_int, Int32.max_int in *; lia.
Qed.

Lemma pixel_differences_exact_witness :
  delta_x (segment 639 0 0 479) = (-639)%Z /\
  delta_y (segment 639 0 0 479) = 479%Z /\
  Int32.in_range (0 - 639) /\ Int32.in_range (479 - 0).
Proof.
  apply (pixel_differences_exact (segment 639 0 0 479)).
  unfold pixel_segment, Int32.max_int. simpl. lia.
Defined.

(** ** Whole runs *)

Lemma releases_app (t1 t2 : list event) :
  releases (t1 ++ t2) = (releases t1 + releases t2)%nat.
Proof.
  induction t1 as [| e t1 IH]; [reflexivity |].
  destruct e; simpl; rewrite IH; reflexivity.
Qed.

Lemma total_sleep_app (t1 t2 : list event) :
  total_sleep (t1 ++ t2) = (total_sleep t1 + total_sleep t2)%Z.
Proof.
  induction t1 as [| e t1 IH]; [reflexivity |].
  destruct e; simpl; rewrite IH; lia.
Qed.

Section Traces.

Variable E : fp_env.
Variable Mat : Type.
Variable Mat_empty : Mat -> bool.
Variable detect_lines : Mat -> list Vec4i.
Variable cap : camera Mat.

Local Abbreviation run_to := (main E Mat Mat_empty detect_lines cap).
Local Abbreviation said := (reports E Mat detect_lines cap).

Lemma reports_succ (k : nat) :
  said (S k) =
  said k ++ [Cout (feedback (verdict E Mat detect_lines cap k)); SleepMs 500].
Proof.
  unfold reports. rewrite seq_S, flat_map_app. reflexivity.
Qed.

Lemma reports_streams (k : nat) :
  stderr_of (said k) = [] /\ releases (said k) = O /\
  total_sleep (said k) = (500 * Z.of_nat k)%Z /\
  List.length (stdout_of (said k)) = k.
Proof.
  induction k as [| k [IH1 [IH2 [IH3 IH4]]]].
  - repeat split.
  - rewrite reports_succ, stderr_of_app, releases_app, total_sleep_app,
      stdout_of_app, length_app, IH1, IH2, IH3, IH4.
    cbn [stderr_of releases total_sleep stdout_of List.length app].
    repeat split; lia.
Qed.

Lemma main_running (k : nat) :
  isOpened cap = true ->
  (forall j, (j < k)%nat -> Mat_empty (read cap j) = false) ->
  run_to (S k) = mkState (Loop k) (Cout banner :: said k).
Proof.
  intros Ho. induction k as [| k IH]; intros Hfr.
  - simpl. unfold step. simpl. rewrite Ho. reflexivity.
  - assert (Hk : run_to (S k) = mkState (Loop k) (Cout banner :: said k))
      by (apply IH; intros; apply Hfr; lia).
    change (run_to (S (S k)))
      with (step E Mat Mat_empty detect_lines cap (run_to (S k))).
    destruct (step_loop_frame E Mat Mat_empty detect_lines cap
                (run_to (S k)) k ltac:(rewrite Hk; reflexivity)
                (Hfr k ltac:(lia))) as [g [Hg Hs]].
    rewrite Hs, Hk. cbn [trace]. rewrite reports_succ.
    unfold verdict. rewrite Hg. reflexivity.
Qed.

Lemma main_exited (k n : nat) :
  isOpened cap = true ->
  (forall j, (j < k)%nat -> Mat_empty (read cap j) = false) ->
  Mat_empty (read cap k) = true ->
  run_to (S (S k) + n) =
    mkState (Returned 0%Z)
            (Cout banner :: said k ++ [Cerr frame_error; CapRelease]).
Proof.
  intros Ho Hfr He.
  assert (Hb : run_to (S (S k)) =
               mkState (Returned 0%Z)
                 (Cout banner :: said k ++ [Cerr frame_error; CapRelease])).
  { rewrite (main_break E Mat Mat_empty detect_lines cap k Ho Hfr He).
    rewrite (main_running k Ho Hfr). reflexivity. }
  rewrite (main_returned E Mat Mat_empty detect_lines cap _ n 0%Z);
    [exact Hb | rewrite Hb; reflexivity].
Qed.

(** Every state of a run has one of four shapes. *)
Lemma main_cases (n : nat) :
  run_to n = initial \/
  run_to n = mkState (Returned (-1)%Z) [Cerr open_error] \/
  (exists k, run_to n = mkState (Loop k) (Cout banner :: said k)) \/
  (exists k, run_to n =
             mkState (Returned 0%Z)
               (Cout banner :: said k ++ [Cerr frame_error; CapRelease])).
Proof.
  destruct n as [| n]; [left; reflexivity |]. right.
  destruct (isOpened cap) eqn:Ho.
  - right.
    pose proof (main_reachable_ok E Mat Mat_empty detect_lines cap (S n))
      as Hr.
    unfold reachable_ok in Hr.
    destruct (ctl (run_to (S n))) as [| i | c |] eqn:Hc.
    + discriminate Hr.
    + destruct Hr as [Hn [_ Hfr]]. injection Hn as Hn. subst i.
      left. exists n. apply main_running; assumption.
    + destruct Hr as [[_ Hcl] | [_ [_ [k [Hk [He Hfr]]]]]]; [congruence |].
      right. exists k.
      replace (S n) with (S (S k) + (n - S k))%nat by lia.
      apply main_exited; assumption.
    + contradiction.
  - left. apply main_camera_closed. exact Ho.
Qed.

End Traces.

(** While the camera delivers frames, the output is the banner followed,
    for each frame in order, by its feedback line and a pause of 500 ms;
    after [k] frames the program is at the head of the loop again. *)
Theorem trace_while_running
  (E : fp_env) (Mat : Type) (Mat_empty : Mat -> bool)
  (detect_lines : Mat -> list Vec4i) (cap : camera Mat) (k : nat) :
  isOpened cap = true ->
  (forall j, (j < k)%nat -> Mat_empty (read cap j) = false) ->
  main E Mat Mat_empty detect_lines cap (S k) =
    mkState (Loop k) (Cout banner :: reports E Mat detect_lines cap k).
Proof. apply main_running. Qed.

Lemma trace_while_running_witness :
  main exact_env Mock.Mat Mock.Mat_empty Mock.detect_lines
       (Mock.steady_camera (Some [])) 3 =
    mkState (Loop 2)
      [Cout banner; Cout "Straighten up!"; SleepMs 500;
       Cout "Straighten up!"; SleepMs 500].
Proof.
  apply (trace_while_running exact_env Mock.Mat Mock.Mat_empty
           Mock.detect_lines (Mock.steady_camera (Some [])) 2).
  - reflexivity.
  - intros j _. reflexivity.
Defined.

(** When the [k]-th read is the first to deliver an empty frame, the run
    ends with the banner, the feedback and pause of the [k] frames before
    it, the error line and the release of the camera; the empty frame gets
    no feedback line and no pause, and nothing is appended afterwards. *)
Theorem trace_after_empty_frame
  (E : fp_env) (Mat : Type) (Mat_empty : Mat -> bool)
  (detect_lines : Mat -> list Vec4i) (cap : camera Mat) (k n : nat) :
  isOpened cap = true ->
  (forall j, (j < k)%nat -> Mat_empty (read cap j) = false) ->
  Mat_empty (read cap k) = true ->
  main E Mat Mat_empty detect_lines cap (S (S k) + n) =
    mkState (Returned 0%Z)
      (Cout banner :: reports E Mat detect_lines cap k
       ++ [Cerr frame_error; CapRelease]).
Proof. apply main_exited. Qed.

Lemma trace_after_empty_frame_witness :
  main exact_env Mock.Mat Mock.Mat_empty Mock.detect_lines
       (Mock.camera_of [Some []; Some []]) 9 =
    mkState (Returned 0%Z)
      [Cout banner; Cout "Straighten up!"; SleepMs 500;
       Cout "Straighten up!"; SleepMs 500; Cerr frame_error; CapRelease].
Proof.
  apply (trace_after_empty_frame exact_env Mock.Mat Mock.Mat_empty
           Mock.detect_lines (Mock.camera_of [Some []; Some []]) 2 5).
  - reflexivity.
  - intros j Hj.
    destruct j as [| [| j]]; [reflexivity | reflexivity | lia].
  - reflexivity.
Defined.


(** [cap.release()] runs exactly once on the way to returning 0 and not at
    all otherwise: not while the loop runs, and not when [main] returns -1. *)
Theorem release_only_on_normal_exit
  (E : fp_env) (Mat : Type) (Mat_empty : Mat -> bool)
  (detect_lines : Mat -> list Vec4i) (cap : camera Mat) (n : nat) :
  releases (trace (main E Mat Mat_empty detect_lines cap n)) =
  match ctl (main E Mat Mat_empty detect_lines cap n) with
  | Returned c => if (c =? 0)%Z then 1%nat else 0%nat
  | _ => 0%nat
  end.
Proof.
  pose proof (fun k => proj1 (proj2 (reports_streams E Mat detect_lines
                                       cap k))) as Hrel.
  destruct (main_cases E Mat Mat_empty detect_lines cap n)
    as [H | [H | [[k H] | [k H]]]]; rewrite H; try reflexivity.
  - cbn [trace ctl releases]. apply Hrel.
  - cbn [trace ctl releases]. rewrite releases_app, Hrel. reflexivity.
Qed.


(** Two platforms that both satisfy the rounding-error model classify a
    segment alike whenever its exact angle is not within [tol] of 10
    degrees in absolute value. *)
Theorem classification_platform_independent
  (E1 E2 : fp_env) (l : Vec4i) (rest : list Vec4i) :
  ieee_like E1 -> ieee_like E2 ->
  Rabs (angle_deg l) < 10 - tol \/ 10 + tol <= Rabs (angle_deg l) ->
  goodPosture E1 (l :: rest) = goodPosture E2 (l :: rest).
Proof.
  intros H1 H2 [Hlt | Hge]; rewrite !goodPosture_cons; f_equal.
  - rewrite (within_tilt_below E1 l H1 Hlt), (within_tilt_below E2 l H2 Hlt).
    reflexivity.
  - rewrite (within_tilt_above E1 l H1 Hge), (within_tilt_above E2 l H2 Hge).
    reflexivity.
Qed.

Lemma classification_platform_independent_witness :
  goodPosture exact_env [segment 0 0 100 100]
  = goodPosture (mkFpEnv PI atan2 (fun x => x) (fun x => x + eta))
                [segment 0 0 100 100].
Proof.
  apply (classification_platform_independent exact_env
           (mkFpEnv PI atan2 (fun x => x) (fun x => x + eta))
           (segment 0 0 100 100) [] exact_env_ieee_like).
  - pose proof eta_small as Heta.
    assert (Hu : 0 <= u) by (rewrite u_value; lra).
    assert (Hx : forall x, approximates x x).
    { intros x. unfold approximates.
      replace (x - x) with 0 by ring. rewrite Rabs_R0.
      pose proof (Rabs_pos x). nra. }
    constructor; simpl; intros; try apply Hx.
    unfold approximates. replace (x + eta - x) with eta by ring.
    rewrite Rabs_pos_eq by lra. pose proof (Rabs_pos x). nra.
  - right. rewrite angle_deg_diagonal, Rabs_pos_eq by lra. unfold tol. lra.
Defined.

(** * The threshold on an IEEE 754 platform *)

(** ** Rounding to nearest *)

Lemma round_half_even_error (y : R) :
  Rabs (IZR (round_half_even y) - y) <= / 2.
Proof.
  unfold round_half_even.
  pose proof (Zfloor_bound y) as [Hlo Hhi].
  destruct (Rcompare_spec (y - IZR (Zfloor y)) (/ 2)) as [He | Hl | Hg].
  - destruct (Z.even (Zfloor y)); [| rewrite plus_IZR];
      apply Rabs_le; simpl; lra.
  - apply Rabs_le. lra.
  - rewrite plus_IZR. apply Rabs_le. simpl. lra.
Qed.

Lemma ln2_pos : 0 < ln 2.
Proof. pose proof ln_lt_2. lra. Qed.

Lemma pow2_as_exp (e : Z) : powerRZ 2 e = exp (IZR e * ln 2).
Proof. rewrite powerRZ_Rpower by lra. reflexivity. Qed.

Lemma pow2_pos (e : Z) : 0 < powerRZ 2 e.
Proof. apply powerRZ_lt. lra. Qed.

Lemma pow2_le (e1 e2 : Z) : (e1 <= e2)%Z -> powerRZ 2 e1 <= powerRZ 2 e2.
Proof.
  intros H. rewrite !pow2_as_exp. pose proof ln2_pos as Hln.
  apply IZR_le in H.
  destruct (Req_dec (IZR e1) (IZR e2)) as [Heq | Hne].
  - rewrite Heq. lra.
  - left. apply exp_increasing. nra.
Qed.

Lemma pow2_add (e1 e2 : Z) :
  powerRZ 2 (e1 + e2) = powerRZ 2 e1 * powerRZ 2 e2.
Proof. apply powerRZ_add. lra. Qed.

Lemma binade_spec (x : R) :
  x <> 0 -> powerRZ 2 (binade x) <= Rabs x < powerRZ 2 (binade x + 1).
Proof.
  intros Hx. pose proof ln2_pos as Hln.
  assert (Ha : 0 < Rabs x) by (apply Rabs_pos_lt; exact Hx).
  unfold binade.
  pose proof (Zfloor_bound (ln (Rabs x) / ln 2)) as [Hlo Hhi].
  set (m := Zfloor (ln (Rabs x) / ln 2)) in *.
  assert (Hq : ln (Rabs x) / ln 2 * ln 2 = ln (Rabs x)) by (field; lra).
  rewrite !pow2_as_exp, plus_IZR.
  pose proof (exp_ln (Rabs x) Ha) as Hexp.
  split.
  - rewrite <- Hexp.
    destruct (Req_dec (IZR m * ln 2) (ln (Rabs x))) as [Heq | Hne].
    + rewrite Heq. lra.
    + left. apply exp_increasing. nra.
  - rewrite <- Hexp. apply exp_increasing. nra.
Qed.


Lemma round_binary_zero (prec emin : Z) : round_binary prec emin 0 = 0.
Proof.
  unfold round_binary. rewrite Rmult_0_l.
  assert (H : round_half_even 0 = 0%Z).
  { unfold round_half_even. rewrite (ZfloorZ 0).
    destruct (Rcompare_spec (0 - 0) (/ 2)); [lra | reflexivity | lra]. }
  rewrite H. ring.
Qed.

(** The error of one rounding: half a unit in the last place. *)
Lemma round_binary_error (prec emin : Z) (x : R) :
  Rabs (round_binary prec emin x - x)
  <= powerRZ 2 (- prec) * Rabs x + powerRZ 2 (emin - prec).
Proof.
  destruct (Req_dec x 0) as [-> | Hx].
  - rewrite round_binary_zero, Rabs_R0.
    replace (0 - 0) with 0 by ring. rewrite Rabs_R0.
    pose proof (pow2_pos (emin - prec)). lra.
  - unfold round_binary.
    set (e := (Z.max (binade x) emin - (prec - 1))%Z).
    pose proof (pow2_pos e) as He. pose proof (pow2_pos (- e)) as He'.
    assert (Hinv : powerRZ 2 (- e) * powerRZ 2 e = 1).
    { rewrite <- pow2_add. replace (- e + e)%Z with 0%Z by lia. reflexivity. }
    pose proof (round_half_even_error (x * powerRZ 2 (- e))) as Hr.
    set (z := IZR (round_half_even (x * powerRZ 2 (- e)))) in *.
    assert (Herr : Rabs (z * powerRZ 2 e - x) <= powerRZ 2 e / 2).
    { replace (z * powerRZ 2 e - x)
        with ((z - x * powerRZ 2 (- e)) * powerRZ 2 e)
        by (rewrite Rmult_minus_distr_r, Rmult_assoc, Hinv; ring).
      rewrite Rabs_mult, (Rabs_pos_eq (powerRZ 2 e)) by lra. nra. }
    apply Rle_trans with (1 := Herr).
    assert (Hhalf : powerRZ 2 e / 2 = powerRZ 2 (e - 1)).
    { replace (e - 1)%Z with (e + - 1)%Z by lia. rewrite pow2_add.
      simpl. field. }
    rewrite Hhalf.
    pose proof (binade_spec x Hx) as [Hb _].
    pose proof (pow2_pos (emin - prec)) as Hsub.
    pose proof (pow2_pos (- prec)) as Hp.
    destruct (Z_le_gt_dec emin (binade x)) as [Hn | Hs].
    + replace (e - 1)%Z with (- prec + binade x)%Z by (unfold e; lia).
      rewrite pow2_add. nra.
    + replace (e - 1)%Z with (emin - prec)%Z by (unfold e; lia).
      pose proof (Rabs_pos x). nra.
Qed.

(** ** A segment whose angle rounds to the threshold *)




Lemma round_float_accurate (x : R) : approximates (round_float x) x.
Proof.
  unfold approximates, round_float.
  apply Rle_trans with (1 := round_binary_error 24 (-126) x).
  pose proof (pow2_le (-126 - 24) (-149) ltac:(lia)) as Hsub.
  change (powerRZ 2 (-149)) with eta in Hsub.
  change (powerRZ 2 (Z.opp 24)) with u. lra.
Qed.

Lemma round_double_accurate (x : R) : approximates (round_double x) x.
Proof.
  unfold approximates, round_double.
  apply Rle_trans with (1 := round_binary_error 53 (-1022) x).
  pose proof (pow2_le (-1022 - 53) (-149) ltac:(lia)) as Hsub.
  pose proof (pow2_le (Z.opp 53) (- 24) ltac:(lia)) as Hrel.
  change (powerRZ 2 (-149)) with eta in Hsub.
  change (powerRZ 2 (- 24)) with u in Hrel.
  pose proof (Rabs_pos x). nra.
Qed.

Lemma ieee_env_ieee_like : ieee_like ieee_env.
Proof.
  constructor; simpl; intros; apply round_double_accurate
    || apply round_float_accurate.
Qed.






(** * Claims on the directed angle *)

Lemma angle_deg_directed (l : Vec4i) :
  Int32.in_range (v3 l - v1 l) -> Int32.in_range (v2 l - v0 l) ->
  angle_deg l = directed_angle l.
Proof.
  intros Hy Hx. unfold angle_deg, directed_angle, delta_y, delta_x, Int32.sub.
  rewrite (wrap_small _ Hy), (wrap_small _ Hx). reflexivity.
Qed.

Lemma atan2_left_abs (y x : R) :
  x < 0 -> Rabs (atan2 y x) = PI - atan (Rabs (y / x)).
Proof.
  intros Hx. pose proof PI_bounds as HPI.
  pose proof (atan_bound (y / x)) as [Hlo Hhi].
  rewrite <- Rabs_atan. unfold atan2.
  destruct (Rlt_dec 0 x) as [Hx' | _]; [lra |].
  destruct (Rlt_dec x 0) as [_ | Hx']; [| lra].
  assert (Hinv : / x < 0) by (apply Rinv_lt_0_compat; exact Hx).
  destruct (Rle_dec 0 y) as [Hy | Hy].
  - assert (Hq : y / x <= 0) by (unfold Rdiv; nra).
    apply atan_le in Hq. rewrite atan_0 in Hq.
    rewrite (Rabs_pos_eq (_ + PI)) by lra.
    destruct Hq as [Hq | Hq].
    + rewrite (Rabs_left _ Hq). lra.
    + rewrite Hq, Rabs_R0. lra.
  - assert (Hq : 0 < y / x) by (unfold Rdiv; nra).
    apply atan_increasing in Hq. rewrite atan_0 in Hq.
    rewrite (Rabs_left (_ - PI)) by lra.
    rewrite (Rabs_pos_eq (atan _)) by lra. lra.
Qed.

(** A segment listed right-to-left within a slope of 0.176 of the
    horizontal has a directed angle of at least 170 degrees. *)
Lemma reversed_exact (l : Vec4i) :
  (delta_x l < 0)%Z ->
  (1000 * Z.abs (delta_y l) <= 176 * - delta_x l)%Z ->
  170 <= Rabs (angle_deg l).
Proof.
  intros Hx Hs. pose proof PI_lower as HPI. pose proof PI_bounds as HPI'.
  assert (Hb : Rabs (IZR (delta_y l) / IZR (delta_x l)) <= 176 / 1000).
  { pose proof (slope_bound (delta_y l) (- delta_x l) 176 1000
                  ltac:(lia) ltac:(lia) Hs) as H.
    rewrite opp_IZR in H.
    replace (IZR (delta_y l) / - IZR (delta_x l))
      with (- (IZR (delta_y l) / IZR (delta_x l))) in H
      by (field; apply IZR_lt in Hx; lra).
    rewrite Rabs_Ropp in H. exact H. }
  apply atan_le in Hb.
  pose proof (atan_series_bounds (176 / 1000) ltac:(lra)) as [_ Hhi].
  unfold angle_deg. unfold Rdiv at 1.
  rewrite !Rabs_mult, (atan2_left_abs _ _ (IZR_lt _ _ Hx)).
  rewrite (Rabs_pos_eq 180) by lra.
  rewrite (Rabs_pos_eq (/ PI)) by (left; apply Rinv_0_lt_compat; lra).
  set (t := atan (Rabs (IZR (delta_y l) / IZR (delta_x l)))) in *.
  assert (Ht : t <= 17422 / 100000) by lra.
  assert (Hinv : 0 < / PI) by (apply Rinv_0_lt_compat; lra).
  assert (Hid : PI * / PI = 1) by (apply Rinv_r; lra).
  nra.
Qed.

Lemma pixel_segment_in_range (l : Vec4i) :
  pixel_segment l ->
  Int32.in_range (v3 l - v1 l) /\ Int32.in_range (v2 l - v0 l).
Proof.
  intros [H0 [H1 [H2 H3]]].
  unfold Int32.in_range, Int32.min_int, Int32.max_int in *. lia.
Qed.




(** C8.  The angle is directed from the first endpoint to the second.  For
    every segment of pixel coordinates listed right-to-left within a slope
    of 0.176 of the horizontal, the value stored in [angle] is within [tol]
    of the directed angle, which is at least 170 degrees in absolute
    value; the absolute value of [angle] is at least 10 and the result is
    needs correction, while the same segment listed from its other end is
    classified good posture. *)
Theorem reversed_segment_needs_correction
  (E : fp_env) (l : Vec4i) (rest rest' : list Vec4i) :
  ieee_like E ->
  pixel_segment l ->
  (v2 l < v0 l)%Z ->
  (1000 * Z.abs (v3 l - v1 l) <= 176 * (v0 l - v2 l))%Z ->
  Rabs (angle E l - directed_angle l) <= tol /\
  170 <= Rabs (directed_angle l) /\
  10 <= Rabs (angle E l) /\
  goodPosture E (l :: rest) = Some false /\
  goodPosture E (reverse_segment l :: rest') = Some true.
Proof.
  intros HE Hpix Hx Hs.
  destruct (pixel_segment_in_range l Hpix) as [Hry Hrx].
  destruct (reverse_pixel_deltas l Hpix) as [Hdx' Hdy'].
  destruct Hpix as [H0 [H1 [H2 H3]]].
  destruct (delta_pixels l H0 H1 H2 H3) as [Hdy Hdx].
  rewrite <- (angle_deg_directed l Hry Hrx).
  pose proof (angle_accurate E l HE) as Hacc.
  assert (H170 : 170 <= Rabs (angle_deg l)).
  { apply reversed_exact; rewrite Hdx, ?Hdy; lia. }
  assert (Hbad : within_tilt E l = false).
  { apply (within_tilt_above E l HE). unfold tol. lra. }
  split; [exact Hacc |]. split; [exact H170 |]. split.
  - unfold within_tilt, Rlt_bool in Hbad.
    destruct (Rlt_dec (Rabs (angle E l)) 10); [discriminate | lra].
  - rewrite !goodPosture_cons, Hbad. split; [reflexivity | f_equal].
    apply (within_tilt_shallow E _ HE).
    + rewrite Hdx', Hdx. lia.
    + rewrite Hdx', Hdy', Hdx, Hdy, Z.abs_opp. lia.
Qed.

Lemma reversed_segment_needs_correction_witness :
  (goodPosture ieee_env [segment 620 200 20 210; segment 3 4 90 4]
   = Some false /\
   goodPosture ieee_env [segment 20 210 620 200] = Some true) /\
  (1794 / 10 < directed_angle (segment 100 0 0 1) < 1795 / 10 /\
   goodPosture ieee_env [segment 100 0 0 1] = Some false /\
   goodPosture ieee_env [segment 0 1 100 0] = Some true).
Proof.
  split.
  - apply (reversed_segment_needs_correction ieee_env
             (segment 620 200 20 210) [segment 3 4 90 4] []
             ieee_env_ieee_like).
    + unfold pixel_segment, Int32.max_int. simpl. lia.
    + reflexivity.
    + vm_compute. discriminate.
  - split; [exact angle_deg_reversed |].
    apply (reversed_segment_needs_correction ieee_env
             (segment 100 0 0 1) [] [] ieee_env_ieee_like).
    + unfold pixel_segment, Int32.max_int. simpl. lia.
    + reflexivity.
    + vm_compute. discriminate.
Defined.
